(** * Legacy travel-reimbursement emulator: rule engine and blend reconciler

    A shallow embedding of [handcrafted_v2.py] (the hand-tuned rule engine)
    and of [calculate_reimbursement.py] (the hybrid that blends the rule
    estimate with a random-forest estimate), with the properties stated in
    the specification proved about the embedded functions; and of the
    scripts that run the calculation over a case file: the [--tune] branch
    of [handcrafted_v2.py], the loop of [eval.py] and the batch run of
    [generate_results.py], with the properties their code shows.

    Numeric model.  Python [int] is [Z].  Python [float] is modelled by
    exact rational arithmetic on [Q]: literals denote their decimal value
    and [+ - * /] are exact, so the rounding error, overflow and NaN of
    IEEE binary64 are outside the model.  The two explicit rounding
    operations of the source, [round(x)] and [round(x, 2)], are modelled
    as what CPython computes from the exact value: the nearest integer
    (resp. the nearest multiple of 1/100), ties going to the even one.
    Division by an [int] that is zero raises [ZeroDivisionError]; this is
    the only exception the arithmetic of the source can raise in the model,
    and it is tracked by the [result] type. *)

From Stdlib Require Import ZArith QArith Qround Qabs Qminmax.
From Stdlib Require Import Lia Lqa List Bool.
From Stdlib Require Import Permutation Sorted.
Import ListNotations.

Open Scope Q_scope.

(* ================================================================== *)
(** * Python primitives *)
(* ================================================================== *)

Module Py.

(** Outcome of an expression that may raise. *)
Inductive result (A : Type) : Type :=
| Ok (a : A)
| ZeroDivisionError.

Arguments Ok {A} a.
Arguments ZeroDivisionError {A}.

Definition bind {A B : Type} (c : result A) (k : A -> result B) : result B :=
  match c with
  | Ok a => k a
  | ZeroDivisionError => ZeroDivisionError
  end.

(** [x <= y] and [x < y] on floats, as booleans. *)
Definition leb (x y : Q) : bool := Qle_bool x y.
Definition ltb (x y : Q) : bool := negb (Qle_bool y x).

(** [x / d] with [x] a float and [d] an int. *)
Definition truediv (x : Q) (d : Z) : result Q :=
  if (d =? 0)%Z then ZeroDivisionError else Ok (x / inject_Z d).

(** [round(x)]: the nearest integer, a tie going to the even neighbour. *)
Definition round (x : Q) : Z :=
  let f := Qfloor x in
  match Qcompare (x - inject_Z f) (1 # 2) with
  | Lt => f
  | Gt => (f + 1)%Z
  | Eq => if Z.even f then f else (f + 1)%Z
  end.

(** [round(x, 2)]: the nearest multiple of 1/100, ties to the even one. *)
Definition round2 (x : Q) : Q := round (x * 100) # 100.

End Py.

Notation "x <- c ;; k" := (Py.bind c (fun x => k))
  (at level 61, c at next level, right associativity).
Infix "<=?" := Py.leb (at level 70, no associativity) : Q_scope.
Infix "<?" := Py.ltb (at level 70, no associativity) : Q_scope.

(* ================================================================== *)
(** * handcrafted_v2.py *)
(* ================================================================== *)

Module handcrafted_v2.

Import Py.

(** ** 1  Constants *)

Record Constants : Type := {
  BASE : Q;
  LONG_K : Q;
  M_DELTA : list Q;
  R12_LOW : Q; R12_HIGH : Q; R12_KNEE : Q;
  R36_LOW : Q; R36_HIGH : Q; R36_KNEE : Q;
  R7_BASE : Q; R7_SPILL : Q; R7_KNEE_PD : Q;
  R7_P0 : Q; R7_P_S : Q;
  FIVE_BONUS : Q; FIVE_CAP : Q;
  WEEK_BONUS : Q;
  FORT_PEN : Q;
  EFF_PEAK : Q; EFF_WIDTH : Q; EFF_BONUS : Q;
  ONE_DAY_WARRIOR_BONUS : Q;
  LMILE_CAP_PD : Q;
  LMILE_PEN_RATE : Q;
  BUG : Q
}.

Definition C : Constants := {|
  BASE := 97.2;
  LONG_K := 0.111;
  M_DELTA := [-261; -25; 21; 254; 314];
  R12_LOW := 0.60; R12_HIGH := 0.15; R12_KNEE := 1000.0;
  R36_LOW := 0.45; R36_HIGH := 0.15; R36_KNEE := 1000.0;
  R7_BASE := 0.45; R7_SPILL := 0.15; R7_KNEE_PD := 150.0;
  R7_P0 := 0.25; R7_P_S := 0.02;
  FIVE_BONUS := 79.0; FIVE_CAP := 1720.0;
  WEEK_BONUS := 280.0;
  FORT_PEN := -370.0;
  EFF_PEAK := 200.0; EFF_WIDTH := 260.0; EFF_BONUS := 80.0;
  ONE_DAY_WARRIOR_BONUS := 235.0;
  LMILE_CAP_PD := 900.0;
  LMILE_PEN_RATE := 0.90;
  BUG := 0.60
|}.

(** ** 2  Helper functions *)

Section Helpers.

(** [math.log] restricted to the [int] arguments it is called on; the
    library function is not part of the repository. *)
Variable log : Z -> Q.

Definition long_fac (d : Z) : Q :=
  if (d <=? 7)%Z then 1.0 else Qmax 0.0 (1 - C.(LONG_K) * log (d - 6)).

(** The [for lim,dl in zip(lims,C["M_DELTA"])] loop of [mile_delta]: the
    delta of the first band whose limit [m] does not exceed, [None] when
    the loop falls through. *)
Fixpoint first_band (m : Q) (bands : list (Q * Q)) : option Q :=
  match bands with
  | [] => None
  | (lim, dl) :: rest => if m <=? lim then Some dl else first_band m rest
  end.

Definition lims : list Q := [100; 300; 600; 1000].

Definition mile_delta (d : Z) (m : Q) : Q :=
  if m <=? 100 then
    if (d =? 1)%Z then 0.0
    else if (d <=? 3)%Z then -150.0
    else if (d <=? 6)%Z then -100.0
    else -50.0
  else
    match first_band m (combine lims C.(M_DELTA)) with
    | Some dl => dl
    | None => last C.(M_DELTA) 0
    end.

Definition rec_1_6 (d : Z) (rec low hi knee_pd : Q) : Q :=
  let knee := knee_pd * inject_Z d in
  if rec <=? knee then low * rec else low * knee + hi * (rec - knee).

Definition rec_7_plus (d : Z) (rec : Q) : Q :=
  let knee := C.(R7_KNEE_PD) * inject_Z d in
  let base := C.(R7_BASE) * Qmin rec knee in
  let spill := C.(R7_SPILL) * Qmax 0 (Qmin (rec - knee) knee) in
  let pen_rate := C.(R7_P0) + C.(R7_P_S) * inject_Z d in
  let penalty := pen_rate * Qmax 0 (rec - 2 * knee) in
  base + spill - penalty.

Definition rec_comp (d : Z) (rec : Q) : Q :=
  if (d <=? 2)%Z then rec_1_6 d rec C.(R12_LOW) C.(R12_HIGH) C.(R12_KNEE)
  else if (d <=? 6)%Z then rec_1_6 d rec C.(R36_LOW) C.(R36_HIGH) C.(R36_KNEE)
  else rec_7_plus d rec.

Definition eff_bonus (d : Z) (m : Q) : result Q :=
  mpd <- truediv m d ;;
  let sc := 1 - ((mpd - C.(EFF_PEAK)) / C.(EFF_WIDTH)) ^ 2 in
  let peak := if (d <=? 6)%Z then 80 else C.(EFF_BONUS) in
  let val := sc * peak in
  Ok (if (d >=? 7)%Z then val else Qmax 0 val).

Definition fortnight_adj (d : Z) (rpd : Q) : Q :=
  if ((7 <=? d)%Z && (d <=? 8)%Z) && ((120 <=? rpd) && (rpd <=? 180))
  then C.(WEEK_BONUS)
  else if ((13 <=? d)%Z && (d <=? 14)%Z) && ((150 <=? rpd) && (rpd <=? 200))
  then C.(FORT_PEN)
  else 0.0.

Definition low_mile_penalty (d : Z) (m rec : Q) : Q :=
  if ((d =? 3)%Z || (d =? 4)%Z) && (m <=? 100) then
    let cap := C.(LMILE_CAP_PD) * inject_Z d in
    let excess := Qmax 0.0 (rec - cap) in
    - C.(LMILE_PEN_RATE) * excess
  else 0.0.

Definition hits_bug (r : Q) : bool :=
  let c := (round (r * 100) mod 100)%Z in
  (c =? 49)%Z || (c =? 99)%Z.

(** ** 3  Main calculation *)

(** The variable [total] of [calculate_reimbursement] when control
    reaches the [hits_bug] test: the base total followed by the five-day
    bonus and cap, the one-day credit, the low-mileage penalty and the
    fortnight parity.  [m>500] is written [500 <? m]; [eff_bonus] and
    [r/d] are the two places that raise when [d] is zero. *)
Definition total_before_bug (d : Z) (m r : Q) : result Q :=
  eff <- eff_bonus d m ;;
  let total :=
    C.(BASE) * inject_Z d * long_fac d + mile_delta d m + rec_comp d r + eff in
  let total :=
    if (d =? 5)%Z then Qmin (total + C.(FIVE_BONUS)) C.(FIVE_CAP) else total in
  let total :=
    if (d =? 1)%Z && (500 <? m) then total + C.(ONE_DAY_WARRIOR_BONUS)
    else total in
  let total := total + low_mile_penalty d m r in
  rpd <- truediv r d ;;
  let total := total + fortnight_adj d rpd in
  Ok total.

Definition calculate_reimbursement (d : Z) (m r : Q) : result Q :=
  total <- total_before_bug d m r ;;
  let total := if hits_bug r then total * C.(BUG) else total in
  Ok (round2 total).

End Helpers.

End handcrafted_v2.

(* ================================================================== *)
(** * calculate_reimbursement.py *)
(* ================================================================== *)

Module calculate_reimbursement.

Import Py.
Module hc := handcrafted_v2.

Section Hybrid.

Variable log : Z -> Q.

(** [forest_pred]: the prediction of the random forest unpickled from
    [rf_reimbursement.pkl]; the artefact is external to the repository,
    so the function is a parameter of the hybrid. *)
Variable forest_pred : Z -> Q -> Q -> Q.

(** Lines 38-40 of [calculate_reimbursement], with [h] and [f] standing
    for the two local variables bound on lines 36 and 37. *)
Definition reconcile (h f : Q) : Q :=
  let h := if 100 <? Qabs (h - f) then h + 0.9 * (f - h) else h in
  round2 h.

Definition calculate_reimbursement (days : Z) (miles receipts : Q) : result Q :=
  h <- hc.calculate_reimbursement log days miles receipts ;;
  let f := forest_pred days miles receipts in
  Ok (reconcile h f).

End Hybrid.

End calculate_reimbursement.

(* ================================================================== *)
(** * The case files and the scripts that run over them *)
(* ================================================================== *)

(** The records of [public_cases.json] and [private_cases.json] after
    [json.load]: a trip is the dict with the three input keys, a public
    case nests it under ["input"] beside ["expected_output"]. *)
Module Cases.

Record Trip : Type := {
  trip_duration_days : Z;
  miles_traveled : Q;
  total_receipts_amount : Q
}.

Record Case : Type := {
  input : Trip;
  expected_output : Q
}.

End Cases.

(** ** handcrafted_v2.py, section 4: the [--tune] branch of the CLI *)

Module handcrafted_v2_main.

Import Py Cases.
Module hc := handcrafted_v2.

(** What the [--tune] branch can end with besides printing. *)
Inductive outcome (A : Type) : Type :=
| Printed (a : A)
| RaisedZeroDivisionError
| RaisedStatisticsError.

Arguments Printed {A} a.
Arguments RaisedZeroDivisionError {A}.
Arguments RaisedStatisticsError {A}.

Section Tune.

Variable log : Z -> Q.

(** [json.loads(...)[1:]]. *)
Definition rows (cases : list Case) : list Case := tl cases.

(** The list comprehension building [errs]: rows are evaluated in order
    and the first exception ends the comprehension. *)
Fixpoint errs (rows : list Case) : result (list Q) :=
  match rows with
  | [] => Ok []
  | r :: rest =>
      v <- hc.calculate_reimbursement log
             r.(input).(trip_duration_days)
             r.(input).(miles_traveled)
             r.(input).(total_receipts_amount) ;;
      es <- errs rest ;;
      Ok (Qabs (v - r.(expected_output)) :: es)
  end.

Definition sum (xs : list Q) : Q := fold_left Qplus xs 0.

(** [max(errs)] on a list known to be non-empty, [x] being its head. *)
Definition max_from (x : Q) (xs : list Q) : Q := fold_left Qmax xs x.

(** The two numbers interpolated into [f"MAE {...:.2f}  Max {...:.2f}"]:
    [statistics.mean(errs)] and [max(errs)], before formatting.
    [statistics.mean] raises [StatisticsError] on an empty list. *)
Definition tune (cases : list Case) : outcome (Q * Q) :=
  match errs (rows cases) with
  | ZeroDivisionError => RaisedZeroDivisionError
  | Ok [] => RaisedStatisticsError
  | Ok (e :: es) =>
      Printed (sum (e :: es) / inject_Z (Z.of_nat (length (e :: es))),
               max_from e es)
  end.

End Tune.

End handcrafted_v2_main.

(** ** eval.py *)

Module eval_py.

Import Py Cases.

(** One dict appended to [errors]. *)
Record ErrorEntry : Type := {
  case_num : Z;
  error : Q;
  trip_days : Z;
  miles : Q;
  receipts : Q;
  expected : Q;
  predicted : Q;
  miles_per_day : Q;
  receipts_per_day : Q
}.

(** The dict kept in [max_error_case]. *)
Record MaxErrorCase : Type := {
  mec_case_num : Z;
  mec_trip_days : Z;
  mec_miles : Q;
  mec_receipts : Q;
  mec_expected : Q;
  mec_predicted : Q;
  mec_error : Q
}.

(** The local variables that the loop of [evaluate_model] updates. *)
Record Counters : Type := {
  exact_matches : Z;
  close_matches : Z;
  total_error : Q;
  max_error : Q;
  max_error_case : option MaxErrorCase;
  errors : list ErrorEntry
}.

(** The dict returned by [evaluate_model]. *)
Record Results : Type := {
  res_exact_matches : Z;
  res_close_matches : Z;
  res_avg_error : Q;
  res_max_error : Q;
  res_score : Q;
  res_errors : list ErrorEntry
}.

Section Evaluate.

Variable log : Z -> Q.
Variable forest_pred : Z -> Q -> Q -> Q.

Definition init : Counters := {|
  exact_matches := 0;
  close_matches := 0;
  total_error := 0;
  max_error := 0;
  max_error_case := None;
  errors := []
|}.

(** The body of the [for i, case in enumerate(test_cases)] loop.  An
    exception leaves the [try] block where it is raised: the updates made
    before it stay, the statements after it are skipped. *)
Definition body (st : Counters) (i : Z) (case : Case) : Counters :=
  let trip_days := case.(input).(trip_duration_days) in
  let miles := case.(input).(miles_traveled) in
  let receipts := case.(input).(total_receipts_amount) in
  let expected := case.(expected_output) in
  match calculate_reimbursement.calculate_reimbursement
          log forest_pred trip_days miles receipts with
  | ZeroDivisionError => st
  | Ok predicted =>
      let error := Qabs (predicted - expected) in
      let total_error := st.(total_error) + error in
      let exact_matches :=
        if error <? 0.01 then (st.(exact_matches) + 1)%Z
        else st.(exact_matches) in
      let close_matches :=
        if error <? 1.0 then (st.(close_matches) + 1)%Z
        else st.(close_matches) in
      let bigger := st.(max_error) <? error in
      let max_error := if bigger then error else st.(max_error) in
      let max_error_case :=
        if bigger then
          Some {| mec_case_num := i; mec_trip_days := trip_days;
                  mec_miles := miles; mec_receipts := receipts;
                  mec_expected := expected; mec_predicted := predicted;
                  mec_error := error |}
        else st.(max_error_case) in
      let st' := {|
        exact_matches := exact_matches;
        close_matches := close_matches;
        total_error := total_error;
        max_error := max_error;
        max_error_case := max_error_case;
        errors := st.(errors)
      |} in
      match truediv miles trip_days, truediv receipts trip_days with
      | Ok mpd, Ok rpd =>
          {| exact_matches := exact_matches;
             close_matches := close_matches;
             total_error := total_error;
             max_error := max_error;
             max_error_case := max_error_case;
             errors := st.(errors) ++
               [{| case_num := i; error := error; trip_days := trip_days;
                   miles := miles; receipts := receipts;
                   expected := expected; predicted := predicted;
                   miles_per_day := mpd; receipts_per_day := rpd |}] |}
      | _, _ => st'
      end
  end.

(** The loop, [i] being the index of the first remaining case. *)
Fixpoint loop (st : Counters) (i : Z) (cases : list Case) : Counters :=
  match cases with
  | [] => st
  | case :: rest => loop (body st i case) (i + 1) rest
  end.

(** [errors.sort(key=lambda x: x['error'], reverse=True)].  [list.sort]
    is stable, also with [reverse=True]: entries with equal keys keep
    their order.  The outcome of a stable sort does not depend on the
    algorithm; it is computed here by insertion from the right, an entry
    going in front of the first entry whose key is not larger. *)
Fixpoint insert_desc (e : ErrorEntry) (l : list ErrorEntry) : list ErrorEntry :=
  match l with
  | [] => [e]
  | x :: l' =>
      if x.(error) <=? e.(error) then e :: x :: l' else x :: insert_desc e l'
  end.

Definition sort_desc (l : list ErrorEntry) : list ErrorEntry :=
  fold_right insert_desc [] l.

Definition evaluate_model (test_cases : list Case) : result Results :=
  let total_cases := Z.of_nat (length test_cases) in
  let st := loop init 0 test_cases in
  avg_error <- truediv st.(total_error) total_cases ;;
  let score :=
    avg_error * 100
    + inject_Z (total_cases - st.(exact_matches)) * 0.1 in
  let errors :=
    if (st.(exact_matches) <? total_cases)%Z then sort_desc st.(errors)
    else st.(errors) in
  Ok {| res_exact_matches := st.(exact_matches);
        res_close_matches := st.(close_matches);
        res_avg_error := avg_error;
        res_max_error := st.(max_error);
        res_score := score;
        res_errors := errors |}.

End Evaluate.

End eval_py.

(** ** generate_results.py *)

Module generate_results.

Import Py Cases.

(** A line written to [private_results.txt]: the text of a value or the
    token [ERROR]. *)
Inductive Line : Type :=
| Value (val : Q)
| ERROR.


Section Generate.

Variable log : Z -> Q.
Variable forest_pred : Z -> Q -> Q -> Q.

(** The body of the loop: the line written for one case. *)
Definition line_of (case : Trip) : Line :=
  match calculate_reimbursement.calculate_reimbursement log forest_pred
          case.(trip_duration_days) case.(miles_traveled)
          case.(total_receipts_amount) with
  | Ok val => Value val
  | ZeroDivisionError => ERROR
  end.

(** The [for i, case in enumerate(data, 1)] loop: the lines written so
    far and the last value bound to [i], if any. *)
Fixpoint loop (out : list Line) (last_i : option Z) (i : Z) (data : list Trip)
  : list Line * option Z :=
  match data with
  | [] => (out, last_i)
  | case :: rest => loop (out ++ [line_of case]) (Some i) (i + 1) rest
  end.


End Generate.

End generate_results.

(** ** Vocabulary for the properties of the scripts *)

Module ScriptSpec.

Import Py Cases eval_py.

(** The case has a day count of zero: the calculation raises on it. *)
Definition zero_days (c : Case) : bool :=
  (c.(input).(trip_duration_days) =? 0)%Z.

(** The sum of the [error] fields of a list of entries. *)
Definition sum_errors (l : list ErrorEntry) : Q :=
  fold_right (fun e acc => e.(error) + acc) 0 l.


(** A small case file used to instantiate the statements: a five-day
    trip, a case with zero days, and a one-day trip. *)
Definition sample_cases : list Case :=
  [ {| input := {| trip_duration_days := 5; miles_traveled := 0;
                   total_receipts_amount := 0 |};
       expected_output := 497.66 |};
    {| input := {| trip_duration_days := 0; miles_traveled := 10;
                   total_receipts_amount := 10 |};
       expected_output := 100 |};
    {| input := {| trip_duration_days := 1; miles_traveled := 600;
                   total_receipts_amount := 0 |};
       expected_output := 400 |} ].

(** What the loop of [evaluate_model] keeps true of its variables. *)
Definition invariant (st : Counters) : Prop :=
  (0 <= st.(exact_matches))%Z /\
  (st.(exact_matches) <= st.(close_matches))%Z /\
  (st.(close_matches) <= Z.of_nat (length st.(errors)))%Z /\
  0 <= st.(max_error) /\
  Forall (fun e => 0 <= e.(error) /\ e.(error) <= st.(max_error))
         st.(errors) /\
  (st.(errors) = [] -> st.(max_error) == 0) /\
  (st.(errors) <> [] ->
   Exists (fun e => e.(error) == st.(max_error)) st.(errors)) /\
  st.(total_error) == sum_errors st.(errors).

End ScriptSpec.

(* ================================================================== *)
(** * Vocabulary of the specification *)
(* ================================================================== *)

Module Spec.

(** [n] is [x] rounded to the nearest integer, an exact tie being
    resolved towards the even integer. *)
Definition nearest_tie_even (x : Q) (n : Z) : Prop :=
  Qabs (x - inject_Z n) < 1 # 2 \/
  (Qabs (x - inject_Z n) == 1 # 2 /\ Z.even n = true).


(** [x] is, as a number, one of the values listed in [vs]. *)
Definition one_of (x : Q) (vs : list Q) : Prop := Exists (Qeq x) vs.


(** The three-term long-trip receipt formula as the specification words
    it: base rate up to the knee [150*days], spillover rate between the
    knee and twice the knee, penalty rate [0.25 + 0.02*days] beyond. *)
Definition long_trip_receipts (days : Z) (receipts : Q) : Q :=
  0.45 * Qmin receipts (150 * inject_Z days)
  + 0.15 * Qmax 0 (Qmin (receipts - 150 * inject_Z days) (150 * inject_Z days))
  - (0.25 + 0.02 * inject_Z days) * Qmax 0 (receipts - 300 * inject_Z days).

End Spec.

(* ================================================================== *)
(** * Facts about the Python primitives *)
(* ================================================================== *)

Module PyFacts.

Import Py.

Lemma leb_true (x y : Q) : (x <=? y) = true <-> x <= y.
Proof. apply Qle_bool_iff. Qed.

Lemma leb_false (x y : Q) : (x <=? y) = false <-> y < x.
Proof.
  unfold leb. rewrite <- not_true_iff_false, Qle_bool_iff.
  split; [apply Qnot_le_lt | apply Qlt_not_le].
Qed.

Lemma ltb_true (x y : Q) : (x <? y) = true <-> x < y.
Proof.
  unfold ltb. rewrite negb_true_iff. apply leb_false.
Qed.

Lemma ltb_false (x y : Q) : (x <? y) = false <-> y <= x.
Proof.
  unfold ltb. rewrite negb_false_iff. apply leb_true.
Qed.

Lemma leb_spec (x y : Q) : BoolSpec (x <= y) (y < x) (x <=? y).
Proof.
  destruct (x <=? y) eqn:E; constructor.
  - now apply leb_true.
  - now apply leb_false.
Qed.

Lemma ltb_spec (x y : Q) : BoolSpec (x < y) (y <= x) (x <? y).
Proof.
  destruct (x <? y) eqn:E; constructor.
  - now apply ltb_true.
  - now apply ltb_false.
Qed.

(** The floor brackets its argument. *)
Lemma floor_bracket (x : Q) :
  inject_Z (Qfloor x) <= x /\ x < inject_Z (Qfloor x) + 1.
Proof.
  split.
  - apply Qfloor_le.
  - generalize (Qlt_floor x). rewrite inject_Z_plus. tauto.
Qed.

(** An integer bracketing [x] is its floor. *)
Lemma floor_unique (x : Q) (n : Z) :
  inject_Z n <= x -> x < inject_Z n + 1 -> Qfloor x = n.
Proof.
  intros Hl Hu. destruct (floor_bracket x) as [Fl Fu].
  assert (A : inject_Z n < inject_Z (Qfloor x) + 1) by lra.
  assert (B : inject_Z (Qfloor x) < inject_Z n + 1) by lra.
  change 1 with (inject_Z 1) in A, B.
  rewrite <- inject_Z_plus, <- Zlt_Qlt in A, B. lia.
Qed.

(** [round] returns the floor or its successor, whichever is nearer. *)
Lemma round_cases (x : Q) :
  (round x = Qfloor x /\ x - inject_Z (Qfloor x) <= 1 # 2) \/
  (round x = (Qfloor x + 1)%Z /\ 1 # 2 <= x - inject_Z (Qfloor x)).
Proof.
  unfold round.
  destruct (Qcompare_spec (x - inject_Z (Qfloor x)) (1 # 2)) as [E|L|G].
  - destruct (Z.even (Qfloor x)); [left | right]; split; auto; lra.
  - left. split; auto. lra.
  - right. split; auto. lra.
Qed.

Lemma round_nearest (x : Q) : Qabs (x - inject_Z (round x)) <= 1 # 2.
Proof.
  destruct (floor_bracket x) as [Fl Fu].
  apply Qabs_Qle_condition.
  destruct (round_cases x) as [[-> H]|[-> H]].
  - lra.
  - rewrite inject_Z_plus. change (inject_Z 1) with 1. lra.
Qed.

Lemma round_inject_Z (n : Z) : round (inject_Z n) = n.
Proof.
  unfold round. rewrite Qfloor_Z.
  destruct (Qcompare_spec (inject_Z n - inject_Z n) (1 # 2)) as [E|L|G];
    try reflexivity; lra.
Qed.



Lemma round_wd (x y : Q) : x == y -> round x = round y.
Proof.
  intros E. unfold round. rewrite (Qfloor_comp _ _ E).
  assert (E' : x - inject_Z (Qfloor y) == y - inject_Z (Qfloor y))
    by (rewrite E; reflexivity).
  rewrite (Qcompare_comp _ _ E' _ _ (Qeq_refl (1 # 2))). reflexivity.
Qed.

(** [round] agrees with the declarative reading: it is the one integer
    nearest to [x], ties resolved to the even side. *)
Lemma round_is_nearest_tie_even (x : Q) : Spec.nearest_tie_even x (round x).
Proof.
  unfold Spec.nearest_tie_even, round.
  destruct (floor_bracket x) as [Fl Fu].
  destruct (Qcompare_spec (x - inject_Z (Qfloor x)) (1 # 2)) as [E|L|G].
  - right. destruct (Z.even (Qfloor x)) eqn:Ev.
    + split; [|exact Ev]. rewrite E. reflexivity.
    + split.
      * rewrite inject_Z_plus. change (inject_Z 1) with 1.
        assert (A : x - (inject_Z (Qfloor x) + 1) == - (1 # 2)) by lra.
        rewrite A. reflexivity.
      * rewrite Z.even_add, Ev. reflexivity.
  - left. apply Qabs_Qlt_condition. lra.
  - left. rewrite inject_Z_plus. change (inject_Z 1) with 1.
    apply Qabs_Qlt_condition. lra.
Qed.

Lemma nearest_tie_even_unique (x : Q) (n k : Z) :
  Spec.nearest_tie_even x n -> Spec.nearest_tie_even x k -> n = k.
Proof.
  unfold Spec.nearest_tie_even.
  intros Hn Hk.
  assert (Bn : - (1 # 2) <= x - inject_Z n /\ x - inject_Z n <= 1 # 2).
  { destruct Hn as [H|[H _]].
    - apply Qabs_Qlt_condition in H. lra.
    - apply Qabs_Qle_condition. rewrite H. lra. }
  assert (Bk : - (1 # 2) <= x - inject_Z k /\ x - inject_Z k <= 1 # 2).
  { destruct Hk as [H|[H _]].
    - apply Qabs_Qlt_condition in H. lra.
    - apply Qabs_Qle_condition. rewrite H. lra. }
  assert (D : (n <= k + 1 /\ k <= n + 1)%Z).
  { split; rewrite Zle_Qle, inject_Z_plus;
      change (inject_Z 1) with 1; lra. }
  destruct (Z.eq_dec k n) as [->|Hne]; [reflexivity|exfalso].
  assert (Step : inject_Z k == inject_Z n + 1 \/ inject_Z k == inject_Z n - 1).
  { assert (K : k = (n + 1)%Z \/ k = (n - 1)%Z) by lia.
    destruct K as [->| ->]; [left | right].
    - rewrite inject_Z_plus. reflexivity.
    - unfold Z.sub. rewrite inject_Z_plus. reflexivity. }
  assert (Par : Z.even k = negb (Z.even n)).
  { assert (K : k = (n + 1)%Z \/ k = (n - 1)%Z) by lia.
    destruct K as [->| ->].
    - rewrite Z.even_add. destruct (Z.even n); reflexivity.
    - rewrite Z.even_sub. destruct (Z.even n); reflexivity. }
  (* both are at distance exactly 1/2, hence both even: parities clash *)
  assert (Tn : Qabs (x - inject_Z n) == 1 # 2).
  { destruct Step as [S|S]; [apply Qabs_case | apply Qabs_case]; intros; lra. }
  assert (Tk : Qabs (x - inject_Z k) == 1 # 2).
  { destruct Step as [S|S]; [apply Qabs_case | apply Qabs_case]; intros; lra. }
  assert (En : Z.even n = true).
  { destruct Hn as [H|[_ H]]; [lra | exact H]. }
  assert (Ek : Z.even k = true).
  { destruct Hk as [H|[_ H]]; [lra | exact H]. }
  rewrite En in Par. rewrite Ek in Par. discriminate.
Qed.

Lemma round_unique (x : Q) (n : Z) : Spec.nearest_tie_even x n <-> n = round x.
Proof.
  split.
  - intros H. apply (nearest_tie_even_unique x); [exact H|].
    apply round_is_nearest_tie_even.
  - intros ->. apply round_is_nearest_tie_even.
Qed.

(** ** [round(x, 2)] *)


Lemma cents_inject (n : Z) : n # 100 == inject_Z n * (1 # 100).
Proof. rewrite (Qmake_Qdiv n 100). field. Qed.

Lemma round2_cents (n : Z) : round2 (n # 100) = n # 100.
Proof.
  unfold round2. f_equal.
  rewrite (round_wd ((n # 100) * 100) (inject_Z n)).
  - apply round_inject_Z.
  - rewrite cents_inject. field.
Qed.

Lemma round2_idem (x : Q) : round2 (round2 x) = round2 x.
Proof. unfold round2 at 2 3. apply round2_cents. Qed.

Lemma round2_err (x : Q) : Qabs (x - round2 x) <= 1 # 200.
Proof.
  unfold round2. generalize (round_nearest (x * 100)).
  intros H. apply Qabs_Qle_condition in H. apply Qabs_Qle_condition.
  rewrite cents_inject. lra.
Qed.


(** Every value strictly within half a cent of [n] cents rounds to it. *)
Lemma round2_stable (x : Q) (n : Z) :
  (n # 100) - (1 # 200) < x -> x < (n # 100) + (1 # 200) ->
  round2 x = n # 100.
Proof.
  intros Hl Hu. unfold round2. f_equal. symmetry.
  apply round_unique. left.
  rewrite cents_inject in Hl, Hu. apply Qabs_Qlt_condition. lra.
Qed.

(** ** [max] and [min] return one of their arguments *)

Lemma Qmax_cases (a b : Q) :
  (a < b /\ Qmax a b = b) \/ (b <= a /\ Qmax a b = a).
Proof.
  unfold Qmax, GenericMinMax.gmax.
  destruct (Qcompare_spec a b) as [E|L|G]; [right|left|right]; split; auto; lra.
Qed.

Lemma Qmin_cases (a b : Q) :
  (a <= b /\ Qmin a b = a) \/ (b < a /\ Qmin a b = b).
Proof.
  unfold Qmin, GenericMinMax.gmin.
  destruct (Qcompare_spec a b) as [E|L|G]; [left|left|right]; split; auto; lra.
Qed.

End PyFacts.

(* ================================================================== *)
(** * The tier functions of the rule engine *)
(* ================================================================== *)

Module Tiers.

Import Py PyFacts.
Import handcrafted_v2.

(** Replace every entry of the constants table by its value. *)
Ltac constants :=
  cbv beta iota delta
    [C BASE LONG_K M_DELTA R12_LOW R12_HIGH R12_KNEE R36_LOW R36_HIGH
     R36_KNEE R7_BASE R7_SPILL R7_KNEE_PD R7_P0 R7_P_S FIVE_BONUS FIVE_CAP
     WEEK_BONUS FORT_PEN EFF_PEAK EFF_WIDTH EFF_BONUS ONE_DAY_WARRIOR_BONUS
     LMILE_CAP_PD LMILE_PEN_RATE BUG] in *.

(** Case analysis on a [max] or [min] of the goal or of a hypothesis. *)
Ltac minmax_at a b cases :=
  let H := fresh "Hcmp" in
  let E := fresh "E" in
  destruct (cases a b) as [[H E]|[H E]]; rewrite E in *; clear E.

Ltac minmax_step :=
  match goal with
  | |- context [Qmax ?a ?b] => minmax_at a b Qmax_cases
  | |- context [Qmin ?a ?b] => minmax_at a b Qmin_cases
  | _ : context [Qmax ?a ?b] |- _ => minmax_at a b Qmax_cases
  | _ : context [Qmin ?a ?b] |- _ => minmax_at a b Qmin_cases
  end.

(** Case analysis on a boolean comparison between integers. *)
Ltac zcmp :=
  repeat match goal with
  | |- context [(?a =? ?b)%Z] => destruct (Z.eqb_spec a b)
  | |- context [(?a <=? ?b)%Z] => destruct (Z.leb_spec a b)
  | |- context [(?a >=? ?b)%Z] => rewrite (Z.geb_leb a b)
  end.

(** *** Mileage tiers *)

Lemma first_band_above_100 (m : Q) :
  100 < m ->
  first_band m (combine lims C.(M_DELTA)) = Some (-25) /\ m <= 300 \/
  first_band m (combine lims C.(M_DELTA)) = Some 21 /\ 300 < m <= 600 \/
  first_band m (combine lims C.(M_DELTA)) = Some 254 /\ 600 < m <= 1000 \/
  first_band m (combine lims C.(M_DELTA)) = None /\ 1000 < m.
Proof.
  intros Hm. cbn [combine lims M_DELTA C first_band].
  destruct (leb_spec m 100) as [H1|H1]; [lra|].
  destruct (leb_spec m 300) as [H3|H3]; [left; split; [reflexivity | lra]|].
  destruct (leb_spec m 600) as [H6|H6];
    [right; left; split; [reflexivity | lra]|].
  destruct (leb_spec m 1000) as [H10|H10];
    [right; right; left; split; [reflexivity | lra]|].
  right; right; right. split; [reflexivity | lra].
Qed.

(** C9.  For every days >= 1 and miles >= 0 the mileage tier adjustment is
    never -261, the delta the table pairs with the breakpoint 100: miles up
    to 100 take one of the flat per-days deltas 0, -150, -100, -50, and the
    breakpoint lookup, which only runs above 100 miles, yields -25, 21, 254
    or 314. *)
Theorem mile_delta_first_entry_unreachable (d : Z) (m : Q) :
  (1 <= d)%Z -> 0 <= m ->
  ~ mile_delta d m == -261 /\
  (m <= 100 -> Spec.one_of (mile_delta d m) [0; -150; -100; -50]) /\
  (100 < m -> Spec.one_of (mile_delta d m) [-25; 21; 254; 314]).
Proof.
  intros Hd Hm. unfold mile_delta, Spec.one_of.
  destruct (leb_spec m 100) as [Hle|Hgt].
  - repeat split.
    + zcmp; intros E; discriminate E.
    + intros _. zcmp.
      * apply Exists_cons_hd. reflexivity.
      * apply Exists_cons_tl, Exists_cons_hd. reflexivity.
      * do 2 apply Exists_cons_tl. apply Exists_cons_hd. reflexivity.
      * do 3 apply Exists_cons_tl. apply Exists_cons_hd. reflexivity.
    + intros Habs. lra.
  - destruct (first_band_above_100 m Hgt) as [[-> _]|[[-> _]|[[-> _]|[-> _]]]];
      cbn [last M_DELTA C]; (repeat split; [intros E; discriminate E | lra |]);
      intros _.
    + apply Exists_cons_hd. reflexivity.
    + apply Exists_cons_tl, Exists_cons_hd. reflexivity.
    + do 2 apply Exists_cons_tl. apply Exists_cons_hd. reflexivity.
    + do 3 apply Exists_cons_tl. apply Exists_cons_hd. reflexivity.
Qed.

Lemma mile_delta_first_entry_unreachable_witness :
  ~ mile_delta 2 250 == -261 /\
  (250 <= 100 -> Spec.one_of (mile_delta 2 250) [0; -150; -100; -50]) /\
  (100 < 250 -> Spec.one_of (mile_delta 2 250) [-25; 21; 254; 314]).
Proof.
  apply (mile_delta_first_entry_unreachable 2 250); [lia | lra].
Defined.

(** *** Receipt curves *)

(** The two-rate curve never decreases when both rates are non-negative:
    each piece is non-decreasing and the two pieces meet at the knee. *)
Lemma rec_1_6_monotone (d : Z) (low hi knee_pd r1 r2 : Q) :
  0 <= low -> 0 <= hi -> r1 <= r2 ->
  rec_1_6 d r1 low hi knee_pd <= rec_1_6 d r2 low hi knee_pd.
Proof.
  intros Hlow Hhi Hr. unfold rec_1_6.
  set (knee := knee_pd * inject_Z d).
  destruct (leb_spec r1 knee) as [H1|H1], (leb_spec r2 knee) as [H2|H2].
  - nra.
  - assert (A : low * r1 <= low * knee) by nra.
    assert (B : 0 <= hi * (r2 - knee)) by nra.
    lra.
  - lra.
  - nra.
Qed.

(** C10.  For 1 <= days <= 6 the receipt component is monotone
    non-decreasing in receipts: 0 <= r1 <= r2 gives
    rec_comp(days, r1) <= rec_comp(days, r2).  The long-trip regime is
    different: there the penalty term makes the component decrease. *)
Theorem rec_comp_monotone_short_mid :
  (forall (d : Z) (r1 r2 : Q),
      (1 <= d <= 6)%Z -> 0 <= r1 -> r1 <= r2 ->
      rec_comp d r1 <= rec_comp d r2) /\
  (exists (d : Z) (r1 r2 : Q),
      (7 <= d)%Z /\ 0 <= r1 /\ r1 <= r2 /\ rec_comp d r2 < rec_comp d r1).
Proof.
  split.
  - intros d r1 r2 Hd H1 H12. unfold rec_comp.
    destruct (Z.leb_spec d 2); [|destruct (Z.leb_spec d 6); [|lia]];
      apply rec_1_6_monotone; constants; lra.
  - exists 7%Z, 2100, 3100. repeat split; try lra; try lia.
Qed.

Lemma rec_comp_monotone_short_mid_witness :
  rec_comp 3 1200 <= rec_comp 3 4500.
Proof.
  apply (proj1 rec_comp_monotone_short_mid 3%Z 1200 4500); [lia | lra | lra].
Defined.

(** C7.  For days >= 7 and receipts >= 0 the receipt component is
    0.45*min(receipts, 150*days)
    + 0.15*max(0, min(receipts - 150*days, 150*days))
    - (0.25 + 0.02*days)*max(0, receipts - 300*days),
    and for some such days and receipts it is strictly negative: no floor
    at zero is applied. *)
Theorem rec_comp_long_trip_formula :
  (forall (d : Z) (rec : Q),
      (7 <= d)%Z -> 0 <= rec ->
      rec_comp d rec == Spec.long_trip_receipts d rec) /\
  (exists (d : Z) (rec : Q), (7 <= d)%Z /\ 0 <= rec /\ rec_comp d rec < 0).
Proof.
  split.
  - intros d rec Hd Hrec. unfold rec_comp.
    destruct (Z.leb_spec d 2); [lia|]. destruct (Z.leb_spec d 6); [lia|].
    unfold rec_7_plus, Spec.long_trip_receipts. constants. cbv zeta.
    generalize (inject_Z d). intros D.
    repeat minmax_step; lra.
  - exists 7%Z, 10000. repeat split; try lra; try lia.
Qed.

Lemma rec_comp_long_trip_formula_witness :
  rec_comp 9 2000 == Spec.long_trip_receipts 9 2000.
Proof.
  apply (proj1 rec_comp_long_trip_formula 9%Z 2000); [lia | lra].
Defined.

(** *** Efficiency parabola *)



End Tiers.

(* ================================================================== *)
(** * The rule engine: [handcrafted_v2.calculate_reimbursement] *)
(* ================================================================== *)

Module RuleEngine.

Import Py PyFacts.
Import handcrafted_v2.
Import Tiers.


(** The calculation returns for every day count other than zero. *)
Lemma total_before_bug_returns (log : Z -> Q) (d : Z) (m r : Q) :
  d <> 0%Z -> exists total : Q, total_before_bug log d m r = Ok total.
Proof.
  intros Hd. unfold total_before_bug, eff_bonus, truediv.
  destruct (Z.eqb_spec d 0) as [E|_]; [contradiction|].
  cbn [bind]. eexists. reflexivity.
Qed.






(** C5.  With the reference constants (BASE 97.2, flat mileage delta -100
    for five days and 0 miles, efficiency peak 200, width 260 and peak bonus
    80, five-day bonus 79 and cap 1720) the rule engine applied to days = 5,
    miles = 0, receipts = 0 returns exactly 497.66. *)
Theorem scenario_five_days_idle (log : Z -> Q) :
  calculate_reimbursement log 5 0 0 = Ok 497.66 /\
  C.(BASE) == 97.2 /\ mile_delta 5 0 == -100 /\
  C.(EFF_PEAK) == 200 /\ C.(EFF_WIDTH) == 260 /\ C.(EFF_BONUS) == 80 /\
  C.(FIVE_BONUS) == 79 /\ C.(FIVE_CAP) == 1720.
Proof.
  repeat split.
Qed.

(** The five-day scenario is robust: its running total is 497.6627..., and
    every value within 0.002 of it still rounds to 497.66. *)
Lemma scenario_five_days_idle_margin (log : Z -> Q) :
  exists total : Q,
    total_before_bug log 5 0 0 = Ok total /\
    forall x : Q, Qabs (x - total) < 1 # 500 -> round2 x = 497.66.
Proof.
  eexists. split; [vm_compute; reflexivity|].
  intros x Hx. apply Qabs_Qlt_condition in Hx.
  apply (round2_stable x 49766); lra.
Qed.

(** C6, as the code computes it.  With the reference constants (bug factor
    0.60, receipt low rate 0.60 for two days, flat mileage delta -150 for
    two days and 50 miles) the rule engine applied to days = 2, miles = 50,
    receipts = 49.49 returns exactly 70.71, the bug multiplier applied to a
    running total of about 117.85. *)
Theorem scenario_bug_two_days (log : Z -> Q) :
  calculate_reimbursement log 2 50 49.49 = Ok 70.71 /\
  hits_bug 49.49 = true /\
  (exists total : Q,
      total_before_bug log 2 50 49.49 = Ok total /\
      117.85 < total /\ total < 117.86 /\
      round2 (total * C.(BUG)) = 70.71) /\
  C.(BUG) == 0.60 /\ C.(R12_LOW) == 0.60 /\ mile_delta 2 50 == -150.
Proof.
  split; [reflexivity|]. split; [reflexivity|]. split.
  - eexists. split; [reflexivity|]. repeat split.
  - repeat split.
Qed.

(** C6 as the specification states it fails: whatever [math.log] returns,
    the engine does not return 70.69 on days = 2, miles = 50,
    receipts = 49.49. *)
Lemma scenario_bug_two_days_not_70_69 :
  ~ (exists (log : Z -> Q) (v : Q),
        calculate_reimbursement log 2 50 49.49 = Ok v /\ v == 70.69).
Proof.
  intros (log & v & Hv & E).
  assert (R : calculate_reimbursement log 2 50 49.49 = Ok 70.71)
    by reflexivity.
  rewrite R in Hv. injection Hv as <-. discriminate E.
Qed.

(** The two-day scenario is robust as well: every value within 0.002 of
    the product of the running total and the bug factor rounds to 70.71. *)
Lemma scenario_bug_two_days_margin (log : Z -> Q) :
  exists total : Q,
    total_before_bug log 2 50 49.49 = Ok total /\
    forall x : Q, Qabs (x - total * C.(BUG)) < 1 # 500 -> round2 x = 70.71.
Proof.
  eexists. split; [vm_compute; reflexivity|].
  intros x Hx. apply Qabs_Qlt_condition in Hx. constants.
  apply (round2_stable x 7071); lra.
Qed.

(** Scenario 2 of the specification: the one-day credit is added once. *)
Example scenario_one_day_warrior (log : Z -> Q) :
  calculate_reimbursement log 1 600 0 = Ok 353.20.
Proof. reflexivity. Qed.

End RuleEngine.

(* ================================================================== *)
(** * The blend reconciler: [calculate_reimbursement.calculate_reimbursement] *)
(* ================================================================== *)

Module BlendReconciler.

Import Py PyFacts.
Import calculate_reimbursement.



(** A rule estimate is a whole number of cents. *)
Lemma rule_estimate_cents (log : Z -> Q) (d : Z) (m r h : Q) :
  hc.calculate_reimbursement log d m r = Ok h -> exists n : Z, h = n # 100.
Proof.
  unfold hc.calculate_reimbursement.
  destruct (hc.total_before_bug log d m r) as [total|]; cbn [bind];
    [|discriminate].
  intros E. injection E as <-. unfold round2. eexists. reflexivity.
Qed.



(** Scenario 5 of the specification. *)
Example scenario_blend : reconcile 500.00 200.00 = 230.00.
Proof. reflexivity. Qed.

(** Below the threshold a whole number of cents is returned as it is. *)
Lemma reconcile_cents_agree (n : Z) (f : Q) :
  Qabs ((n # 100) - f) <= 100 -> reconcile (n # 100) f = n # 100.
Proof.
  intros Hd. unfold reconcile. cbv zeta.
  apply ltb_false in Hd. rewrite Hd. apply round2_cents.
Qed.



End BlendReconciler.

(* ================================================================== *)
(** * Further properties of the tier functions *)
(* ================================================================== *)

Module TierBounds.

Import Py PyFacts.
Import handcrafted_v2.
Import Tiers.

(** *** Duration damping *)

(** Whatever the logarithm returns, the damping factor is never negative;
    it is at most one as soon as the logarithm is non-negative on the
    positive integers. *)
Theorem long_fac_range (log : Z -> Q) (d : Z) :
  (forall n : Z, (1 <= n)%Z -> 0 <= log n) ->
  0 <= long_fac log d /\ long_fac log d <= 1.
Proof.
  intros Hlog. unfold long_fac.
  destruct (Z.leb_spec d 7) as [Hd|Hd]; [split; lra|].
  assert (L : 0 <= log (d - 6)%Z) by (apply Hlog; lia).
  constants. minmax_step; lra.
Qed.

Lemma long_fac_range_witness :
  0 <= long_fac (fun n => inject_Z (Z.log2 n)) 30 /\
  long_fac (fun n => inject_Z (Z.log2 n)) 30 <= 1.
Proof.
  apply (long_fac_range (fun n => inject_Z (Z.log2 n)) 30).
  intros n Hn. change 0 with (inject_Z 0). rewrite <- Zle_Qle.
  apply Z.log2_nonneg.
Defined.

(** With a non-decreasing logarithm, longer trips never get a larger
    damping factor. *)
Theorem long_fac_antitone (log : Z -> Q) (d1 d2 : Z) :
  (forall n k : Z, (1 <= n <= k)%Z -> 0 <= log n /\ log n <= log k) ->
  (d1 <= d2)%Z ->
  long_fac log d2 <= long_fac log d1.
Proof.
  intros Hlog H12. unfold long_fac.
  destruct (Z.leb_spec d1 7) as [H1|H1], (Z.leb_spec d2 7) as [H2|H2];
    try lia.
  - lra.
  - destruct (Hlog (d2 - 6)%Z (d2 - 6)%Z) as [L _]; [lia|].
    constants. minmax_step; lra.
  - destruct (Hlog (d1 - 6)%Z (d2 - 6)%Z) as [L1 L2]; [lia|].
    constants. repeat minmax_step; lra.
Qed.

Lemma long_fac_antitone_witness :
  long_fac (fun n => inject_Z (Z.log2 n)) 40
  <= long_fac (fun n => inject_Z (Z.log2 n)) 9.
Proof.
  apply (long_fac_antitone (fun n => inject_Z (Z.log2 n)) 9 40); [|lia].
  intros n k Hnk. split.
  - change 0 with (inject_Z 0). rewrite <- Zle_Qle. apply Z.log2_nonneg.
  - rewrite <- Zle_Qle. apply Z.log2_le_mono. lia.
Defined.

(** *** Mileage tiers *)

Lemma mile_delta_above_100_mono (d1 d2 : Z) (m1 m2 : Q) :
  100 < m1 -> m1 <= m2 -> mile_delta d1 m1 <= mile_delta d2 m2.
Proof.
  intros H1 H12. assert (H2 : 100 < m2) by lra.
  unfold mile_delta.
  destruct (leb_spec m1 100); [lra|]. destruct (leb_spec m2 100); [lra|].
  destruct (first_band_above_100 m1 H1) as [[-> B1]|[[-> B1]|[[-> B1]|[-> B1]]]];
  destruct (first_band_above_100 m2 H2) as [[-> B2]|[[-> B2]|[[-> B2]|[-> B2]]]];
    cbn [last M_DELTA C]; lra.
Qed.

(** For every day count other than one the delta is non-decreasing in the
    mileage over the whole range; for a one-day trip it is not: any
    mileage up to 100 earns 25 more than any mileage between 100 and
    300.  Above 100 miles the delta does not depend on the day count and
    never decreases when the mileage grows. *)
Theorem mile_delta_monotone_except_one_day :
  (forall (d : Z) (m1 m2 : Q),
      d <> 1%Z -> m1 <= m2 -> mile_delta d m1 <= mile_delta d m2) /\
  (forall m1 m2 : Q,
      m1 <= 100 -> 100 < m2 -> m2 <= 300 ->
      mile_delta 1 m2 == mile_delta 1 m1 - 25) /\
  (forall (d1 d2 : Z) (m1 m2 : Q),
      100 < m1 -> m1 <= m2 -> mile_delta d1 m1 <= mile_delta d2 m2).
Proof.
  split; [|split].
  - intros d m1 m2 Hd H12.
    destruct (Qlt_le_dec 100 m1) as [H1|H1].
    + apply mile_delta_above_100_mono; assumption.
    + unfold mile_delta.
      destruct (leb_spec m1 100); [|lra].
      destruct (leb_spec m2 100) as [H2|H2]; [lra|].
      destruct (first_band_above_100 m2 H2)
        as [[-> _]|[[-> _]|[[-> _]|[-> _]]]];
        cbn [last M_DELTA C]; zcmp; try lia; lra.
  - intros m1 m2 H1 H2 H3. unfold mile_delta.
    destruct (leb_spec m1 100); [|lra]. destruct (leb_spec m2 100); [lra|].
    cbn [combine lims M_DELTA C first_band].
    destruct (leb_spec m2 100); [lra|]. destruct (leb_spec m2 300); [|lra].
    cbn [Z.eqb Pos.eqb]. lra.
  - intros d1 d2 m1 m2. apply mile_delta_above_100_mono.
Qed.

Lemma mile_delta_monotone_except_one_day_witness :
  mile_delta 4 80 <= mile_delta 4 450.
Proof.
  apply (proj1 mile_delta_monotone_except_one_day 4%Z 80 450); [lia | lra].
Defined.

(** *** Receipt curves *)

(** For one to six days and non-negative receipts the receipt component
    lies between zero and 60 percent of the receipts. *)
Theorem rec_comp_short_mid_bounds (d : Z) (rec : Q) :
  (1 <= d <= 6)%Z -> 0 <= rec ->
  0 <= rec_comp d rec /\ rec_comp d rec <= 0.60 * rec.
Proof.
  intros Hd Hrec. unfold rec_comp, rec_1_6.
  assert (D : 1 <= inject_Z d).
  { change 1 with (inject_Z 1). rewrite <- Zle_Qle. lia. }
  revert D. generalize (inject_Z d). intros D HD.
  destruct (Z.leb_spec d 2); [|destruct (Z.leb_spec d 6); [|lia]];
    constants; cbv zeta;
    match goal with |- context [?a <=? ?b] => destruct (leb_spec a b) end;
    split; lra.
Qed.

Lemma rec_comp_short_mid_bounds_witness :
  0 <= rec_comp 4 5200 /\ rec_comp 4 5200 <= 0.60 * 5200.
Proof.
  apply (rec_comp_short_mid_bounds 4 5200); [lia | lra].
Defined.






(** *** Efficiency parabola *)






(** *** Low-mileage clawback *)

(** The clawback is never a credit, and it is zero unless the trip lasts
    3 or 4 days, covers at most 100 miles and spends more than 900 per
    day. *)
Theorem low_mile_penalty_nonpositive (d : Z) (m rec : Q) :
  low_mile_penalty d m rec <= 0 /\
  (low_mile_penalty d m rec < 0 <->
   (d = 3%Z \/ d = 4%Z) /\ m <= 100 /\ 900 * inject_Z d < rec).
Proof.
  unfold low_mile_penalty. constants. cbv zeta.
  destruct (Z.eqb_spec d 3) as [E3|N3]; [|destruct (Z.eqb_spec d 4) as [E4|N4]];
    cbn [orb andb]; destruct (leb_spec m 100) as [Hm|Hm];
    try (split; [lra|]; split; [intros; lra | intros ([?|?] & ? & ?); lra || lia]).
  all: generalize (inject_Z d); intros D; minmax_step;
    (split; [lra|]); (split; [intros H | intros (_ & _ & H)]);
    try lra; (split; [auto|]); split; lra.
Qed.

Lemma low_mile_penalty_nonpositive_witness :
  low_mile_penalty 3 50 5000 < 0.
Proof.
  apply (proj2 (proj2 (low_mile_penalty_nonpositive 3 50 5000))).
  split; [left; reflexivity|]. split; [lra|]. vm_compute. reflexivity.
Defined.

End TierBounds.

(* ================================================================== *)
(** * Further facts about rounding *)
(* ================================================================== *)

Module Rounding.

Import Py PyFacts.





End Rounding.

(* ================================================================== *)
(** * Further properties of the rule engine *)
(* ================================================================== *)

Module EngineBounds.

Import Py PyFacts Rounding.
Import handcrafted_v2.
Import Tiers RuleEngine.




















(** *** The [hits_bug] test *)




End EngineBounds.

(* ================================================================== *)
(** * Further properties of the blend reconciler *)
(* ================================================================== *)

Module BlendBounds.

Import Py PyFacts.
Import calculate_reimbursement.
Import BlendReconciler.

(** The reconciled value of a rule estimate [h] and a model estimate [f]
    never leaves the range spanned by the two. *)
Theorem reconcile_within_estimates (log : Z -> Q) (d : Z) (m r h f : Q) :
  hc.calculate_reimbursement log d m r = Ok h ->
  Qmin h f <= reconcile h f /\ reconcile h f <= Qmax h f.
Proof.
  intros Hh. destruct (rule_estimate_cents log d m r h Hh) as [n ->].
  destruct (Qlt_le_dec 100 (Qabs ((n # 100) - f))) as [Far|Near].
  - unfold reconcile. cbv zeta.
    apply ltb_true in Far. rewrite Far. apply ltb_true in Far.
    generalize (round2_err ((n # 100) + 0.9 * (f - (n # 100)))).
    generalize (round2 ((n # 100) + 0.9 * (f - (n # 100)))).
    generalize (n # 100) Far. intros h Hfar y Hy.
    apply Qabs_Qle_condition in Hy.
    revert Hfar. apply Qabs_case; intros Hs Hfar;
      destruct (Qmin_cases h f) as [[? ->]|[? ->]];
      destruct (Qmax_cases h f) as [[? ->]|[? ->]]; split; lra.
  - rewrite (reconcile_cents_agree n f Near).
    split; [apply Q.le_min_l | apply Q.le_max_l].
Qed.

Lemma reconcile_within_estimates_witness :
  Qmin 497.66 900 <= reconcile 497.66 900 /\
  reconcile 497.66 900 <= Qmax 497.66 900.
Proof.
  apply (reconcile_within_estimates (fun _ => 0) 5 0 0 497.66 900).
  reflexivity.
Defined.

(** The hybrid either returns the rule estimate unchanged or moves it by
    more than 89.99: no small corrections are ever applied. *)
Theorem reconcile_keeps_or_jumps (log : Z -> Q) (d : Z) (m r h f : Q) :
  hc.calculate_reimbursement log d m r = Ok h ->
  reconcile h f = h \/ 89.99 < Qabs (reconcile h f - h).
Proof.
  intros Hh. destruct (rule_estimate_cents log d m r h Hh) as [n ->].
  destruct (Qlt_le_dec 100 (Qabs ((n # 100) - f))) as [Far|Near].
  - right. unfold reconcile. cbv zeta.
    apply ltb_true in Far. rewrite Far. apply ltb_true in Far.
    generalize (round2_err ((n # 100) + 0.9 * (f - (n # 100)))).
    generalize (round2 ((n # 100) + 0.9 * (f - (n # 100)))).
    generalize (n # 100) Far. intros h Hfar y Hy.
    apply Qabs_Qle_condition in Hy.
    revert Hfar. apply Qabs_case; intros Hs Hfar; apply Qabs_case; intros; lra.
  - left. apply reconcile_cents_agree. exact Near.
Qed.

Lemma reconcile_keeps_or_jumps_witness :
  reconcile 497.66 900 = 497.66 \/ 89.99 < Qabs (reconcile 497.66 900 - 497.66).
Proof.
  apply (reconcile_keeps_or_jumps (fun _ => 0) 5 0 0 497.66 900).
  reflexivity.
Defined.



End BlendBounds.

(* ================================================================== *)
(** * Facts shared by the scripts *)
(* ================================================================== *)

Module ScriptFacts.

Import Py PyFacts Cases.
Module hc := handcrafted_v2.

Lemma hc_returns (log : Z -> Q) (d : Z) (m r : Q) :
  d <> 0%Z -> exists v : Q, hc.calculate_reimbursement log d m r = Ok v.
Proof.
  intros Hd. destruct (RuleEngine.total_before_bug_returns log d m r Hd) as [t Ht].
  unfold hc.calculate_reimbursement. rewrite Ht. cbn [bind].
  eexists. reflexivity.
Qed.

Lemma hc_raises (log : Z -> Q) (m r : Q) :
  hc.calculate_reimbursement log 0 m r = ZeroDivisionError.
Proof. reflexivity. Qed.

Lemma hybrid_returns
    (log : Z -> Q) (forest_pred : Z -> Q -> Q -> Q) (d : Z) (m r : Q) :
  d <> 0%Z ->
  exists v : Q,
    calculate_reimbursement.calculate_reimbursement log forest_pred d m r = Ok v.
Proof.
  intros Hd. destruct (hc_returns log d m r Hd) as [h Hh].
  unfold calculate_reimbursement.calculate_reimbursement.
  change (calculate_reimbursement.hc.calculate_reimbursement log d m r)
    with (hc.calculate_reimbursement log d m r).
  rewrite Hh. cbn [bind]. eexists. reflexivity.
Qed.

Lemma hybrid_raises
    (log : Z -> Q) (forest_pred : Z -> Q -> Q -> Q) (m r : Q) :
  calculate_reimbursement.calculate_reimbursement log forest_pred 0 m r
  = ZeroDivisionError.
Proof. reflexivity. Qed.

(** Sums and maxima computed by a left fold. *)

Lemma fold_plus_acc (xs : list Q) (a : Q) :
  fold_left Qplus xs a == a + fold_left Qplus xs 0.
Proof.
  revert a. induction xs as [|x xs IH]; intros a; cbn [fold_left].
  - ring.
  - rewrite (IH (a + x)), (IH (0 + x)). ring.
Qed.

Lemma fold_plus_bounds (xs : list Q) (lo hi : Q) :
  Forall (fun x => lo <= x /\ x <= hi) xs ->
  lo * inject_Z (Z.of_nat (length xs)) <= fold_left Qplus xs 0 /\
  fold_left Qplus xs 0 <= hi * inject_Z (Z.of_nat (length xs)).
Proof.
  induction 1 as [|x xs [Hl Hh] _ IH].
  - cbn [fold_left length Z.of_nat]. change (inject_Z 0) with 0. split; lra.
  - cbn [fold_left length]. rewrite fold_plus_acc.
    rewrite Nat2Z.inj_succ. unfold Z.succ. rewrite inject_Z_plus.
    change (inject_Z 1) with 1. destruct IH as [IHl IHh]. split; lra.
Qed.

Lemma fold_max_acc (xs : list Q) (a : Q) :
  a <= fold_left Qmax xs a /\ Forall (fun x => x <= fold_left Qmax xs a) xs.
Proof.
  revert a. induction xs as [|x xs IH]; intros a; cbn [fold_left].
  - split; [lra | constructor].
  - destruct (IH (Qmax a x)) as [Ha Hxs].
    pose proof (Q.le_max_l a x). pose proof (Q.le_max_r a x).
    split; [lra|]. constructor; [lra | exact Hxs].
Qed.

End ScriptFacts.

(* ================================================================== *)
(** * The [--tune] branch of [handcrafted_v2.py] *)
(* ================================================================== *)

Module TuneFacts.

Import Py PyFacts Cases ScriptSpec ScriptFacts.
Import handcrafted_v2_main.





(** When the [--tune] branch prints, the mean error is non-negative and
    at most the maximum error, and the error of every case after the
    first is at most the maximum. *)
Theorem tune_mean_below_max (log : Z -> Q) (cases : list Case) (mae mx : Q) :
  tune log cases = Printed (mae, mx) ->
  0 <= mae /\ mae <= mx /\
  Forall (fun c =>
            exists v : Q,
              hc.calculate_reimbursement log
                c.(input).(trip_duration_days) c.(input).(miles_traveled)
                c.(input).(total_receipts_amount) = Ok v /\
              Qabs (v - c.(expected_output)) <= mx)
         (tl cases).
Proof.
  unfold tune, rows. intros H.
  destruct (errs log (tl cases)) as [es|] eqn:E; [|discriminate H].
  destruct es as [|e es]; [discriminate H|].
  assert (Hmae : mae = sum (e :: es)
                       / inject_Z (Z.of_nat (length (e :: es))))
    by congruence.
  assert (Hmx : mx = max_from e es) by congruence.
  clear H.
  (* every recorded error is the error of its case *)
  assert (Each : forall rs es',
             errs log rs = Ok es' ->
             Forall (Qle 0) es' /\
             forall bound : Q,
               Forall (fun x => x <= bound) es' ->
               Forall (fun c =>
                 exists v : Q,
                   hc.calculate_reimbursement log
                     c.(input).(trip_duration_days) c.(input).(miles_traveled)
                     c.(input).(total_receipts_amount) = Ok v /\
                   Qabs (v - c.(expected_output)) <= bound) rs).
  { induction rs as [|c rs IH]; intros es' Hes; cbn [errs] in Hes.
    - injection Hes as <-. split; constructor.
    - destruct (hc.calculate_reimbursement log _ _ _) as [v|] eqn:Hv;
        [|discriminate Hes].
      cbn [bind] in Hes.
      destruct (errs log rs) as [es''|]; [|discriminate Hes].
      cbn [bind] in Hes.
      assert (Hes' : es' = Qabs (v - expected_output c) :: es'')
        by congruence.
      subst es'. clear Hes.
      destruct (IH es'' eq_refl) as [P B]. split.
      + constructor; [exact (Qabs_nonneg _) | exact P].
      + intros bound Hb.
        constructor;
          [exists v; split; [exact Hv | exact (Forall_inv Hb)]|].
        apply B. exact (Forall_inv_tail Hb). }
  destruct (Each _ _ E) as [Pos Bound].
  destruct (fold_max_acc es e) as [He Hes].
  assert (Below : Forall (fun x => x <= mx) (e :: es)).
  { subst mx. unfold max_from. constructor; assumption. }
  assert (Range : Forall (fun x => 0 <= x /\ x <= mx) (e :: es)).
  { apply Forall_forall. intros x Hx. split.
    - exact (proj1 (Forall_forall _ _) Pos x Hx).
    - exact (proj1 (Forall_forall _ _) Below x Hx). }
  destruct (fold_plus_bounds _ _ _ Range) as [Slo Shi].
  assert (N : 0 < inject_Z (Z.of_nat (length (e :: es)))).
  { change 0 with (inject_Z 0). rewrite <- Zlt_Qlt. cbn [length]. lia. }
  split; [|split].
  - subst mae. unfold sum. apply Qle_shift_div_l; [exact N|]. lra.
  - subst mae. unfold sum. apply Qle_shift_div_r; [exact N|]. lra.
  - apply Bound. exact Below.
Qed.

Lemma tune_mean_below_max_witness :
  let c1 := {| input := {| trip_duration_days := 5; miles_traveled := 0;
                           total_receipts_amount := 0 |};
               expected_output := 500 |} in
  let c2 := {| input := {| trip_duration_days := 1; miles_traveled := 600;
                           total_receipts_amount := 0 |};
               expected_output := 350 |} in
  exists mae mx : Q,
    tune (fun _ => 0) [c1; c1; c2] = Printed (mae, mx) /\ 0 <= mae /\ mae <= mx.
Proof.
  intros c1 c2. eexists. eexists.
  split; [reflexivity|].
  destruct (tune_mean_below_max (fun _ => 0) [c1; c1; c2] _ _ eq_refl)
    as (A & B & _).
  split; [exact A | exact B].
Defined.

End TuneFacts.

(* ================================================================== *)
(** * [eval.py]: the evaluation loop *)
(* ================================================================== *)

Module EvalFacts.

Import Py PyFacts Cases ScriptSpec ScriptFacts.
Import eval_py.

Section Evaluate.

Variable log : Z -> Q.
Variable forest_pred : Z -> Q -> Q -> Q.

(** A case with a day count of zero leaves every variable unchanged. *)
Lemma body_zero (st : Counters) (i : Z) (c : Case) :
  zero_days c = true -> body log forest_pred st i c = st.
Proof.
  unfold zero_days. intros H. apply Z.eqb_eq in H.
  unfold body. rewrite H. reflexivity.
Qed.

(** Any other case updates the counters and appends one entry. *)
Lemma body_nonzero (st : Counters) (i : Z) (c : Case) :
  zero_days c = false ->
  exists e : ErrorEntry,
    e.(case_num) = i /\
    e.(trip_days) = c.(input).(trip_duration_days) /\
    e.(miles) = c.(input).(miles_traveled) /\
    e.(receipts) = c.(input).(total_receipts_amount) /\
    e.(expected) = c.(expected_output) /\
    calculate_reimbursement.calculate_reimbursement log forest_pred
      e.(trip_days) e.(miles) e.(receipts) = Ok e.(predicted) /\
    e.(error) = Qabs (e.(predicted) - e.(expected)) /\
    e.(miles_per_day) * inject_Z e.(trip_days) == e.(miles) /\
    e.(receipts_per_day) * inject_Z e.(trip_days) == e.(receipts) /\
    body log forest_pred st i c =
    {| exact_matches :=
         if e.(error) <? 0.01 then (st.(exact_matches) + 1)%Z
         else st.(exact_matches);
       close_matches :=
         if e.(error) <? 1.0 then (st.(close_matches) + 1)%Z
         else st.(close_matches);
       total_error := st.(total_error) + e.(error);
       max_error :=
         if st.(max_error) <? e.(error) then e.(error) else st.(max_error);
       max_error_case := max_error_case (body log forest_pred st i c);
       errors := st.(errors) ++ [e] |}.
Proof.
  unfold zero_days. intros H. apply Z.eqb_neq in H.
  destruct (hybrid_returns log forest_pred _
              (miles_traveled (input c)) (total_receipts_amount (input c)) H)
    as [v Hv].
  assert (D : ~ inject_Z (trip_duration_days (input c)) == 0).
  { change 0 with (inject_Z 0). rewrite inject_Z_injective. exact H. }
  exists {| case_num := i;
            error := Qabs (v - expected_output c);
            trip_days := trip_duration_days (input c);
            miles := miles_traveled (input c);
            receipts := total_receipts_amount (input c);
            expected := expected_output c;
            predicted := v;
            miles_per_day :=
              miles_traveled (input c)
              / inject_Z (trip_duration_days (input c));
            receipts_per_day :=
              total_receipts_amount (input c)
              / inject_Z (trip_duration_days (input c)) |}.
  cbn [case_num error trip_days miles receipts expected predicted
       miles_per_day receipts_per_day].
  repeat (split; [first [reflexivity | exact Hv | field; exact D]|]).
  unfold body, truediv. rewrite Hv.
  destruct (Z.eqb_spec (trip_duration_days (input c)) 0) as [E|_];
    [contradiction|].
  reflexivity.
Qed.

Lemma sum_errors_app (l : list ErrorEntry) (e : ErrorEntry) :
  sum_errors (l ++ [e]) == sum_errors l + e.(error).
Proof.
  unfold sum_errors. induction l as [|x l IH]; cbn [app fold_right].
  - ring.
  - rewrite IH. ring.
Qed.

Lemma init_invariant : invariant init.
Proof.
  unfold invariant, init. cbn.
  repeat split; try lia; try lra; try constructor; try reflexivity.
  intros H. contradiction H. reflexivity.
Qed.

Lemma body_invariant (st : Counters) (i : Z) (c : Case) :
  invariant st -> invariant (body log forest_pred st i c).
Proof.
  intros Inv. destruct (zero_days c) eqn:Z0.
  - rewrite (body_zero st i c Z0). exact Inv.
  - destruct (body_nonzero st i c Z0)
      as (e & _ & _ & _ & _ & _ & _ & He & _ & _ & ->).
    destruct Inv as (I1 & I2 & I3 & I4 & I5 & I6 & I7 & I8).
    assert (Pos : 0 <= e.(error)) by (rewrite He; apply Qabs_nonneg).
    unfold invariant.
    cbn [exact_matches close_matches total_error max_error errors].
    rewrite length_app. cbn [length].
    assert (Close : (e.(error) <? 0.01) = true -> (e.(error) <? 1.0) = true).
    { rewrite !ltb_true. intros. lra. }
    split; [destruct (error e <? 0.01); lia|].
    split.
    { destruct (error e <? 0.01), (error e <? 1.0); lia. }
    split; [destruct (error e <? 1.0); lia|].
    split; [destruct (ltb_spec (max_error st) (error e)); lra|].
    split.
    { apply Forall_app. split.
      - apply Forall_forall. intros x Hx.
        destruct (proj1 (Forall_forall _ _) I5 x Hx) as [A B].
        split; [exact A|].
        destruct (ltb_spec (max_error st) (error e)); lra.
      - constructor; [|constructor]. split; [exact Pos|].
        destruct (ltb_spec (max_error st) (error e)); lra. }
    split.
    { intros E. destruct (errors st); discriminate E. }
    split.
    { intros _. apply Exists_app.
      destruct (ltb_spec (max_error st) (error e)) as [Lt|Ge].
      - right. constructor. reflexivity.
      - destruct (errors st) as [|x l] eqn:El.
        + right. constructor. assert (M := I6 eq_refl). lra.
        + left. apply I7. discriminate. }
    rewrite sum_errors_app, I8. reflexivity.
Qed.

Lemma loop_invariant (cases : list Case) (st : Counters) (i : Z) :
  invariant st -> invariant (loop log forest_pred st i cases).
Proof.
  revert st i. induction cases as [|c cases IH]; intros st i Inv; cbn [loop].
  - exact Inv.
  - apply IH, body_invariant, Inv.
Qed.

(** One entry per case that does not raise, none for the others. *)
Lemma loop_length (cases : list Case) (st : Counters) (i : Z) :
  length (errors (loop log forest_pred st i cases))
  = (length (errors st)
     + length (filter (fun c => negb (zero_days c)) cases))%nat.
Proof.
  revert st i. induction cases as [|c cases IH]; intros st i;
    cbn [loop filter].
  - cbn [length]. lia.
  - rewrite IH. destruct (zero_days c) eqn:Z0; cbn [negb].
    + rewrite (body_zero st i c Z0). reflexivity.
    + destruct (body_nonzero st i c Z0)
        as (e & _ & _ & _ & _ & _ & _ & _ & _ & _ & ->).
      cbn [errors length]. rewrite length_app. cbn [length]. lia.
Qed.



(** *** The final sort *)

Lemma insert_desc_perm (e : ErrorEntry) (l : list ErrorEntry) :
  Permutation (e :: l) (insert_desc e l).
Proof.
  induction l as [|x l IH]; cbn [insert_desc].
  - apply Permutation_refl.
  - destruct (error x <=? error e); [apply Permutation_refl|].
    apply perm_trans with (x :: e :: l); [apply perm_swap|].
    apply perm_skip, IH.
Qed.

Lemma sort_desc_perm (l : list ErrorEntry) : Permutation l (sort_desc l).
Proof.
  unfold sort_desc. induction l as [|x l IH]; cbn [fold_right].
  - apply Permutation_refl.
  - apply perm_trans with (x :: fold_right insert_desc [] l).
    + apply perm_skip, IH.
    + apply insert_desc_perm.
Qed.

Lemma insert_desc_sorted (e : ErrorEntry) (l : list ErrorEntry) :
  StronglySorted (fun a b => b.(error) <= a.(error)) l ->
  StronglySorted (fun a b => b.(error) <= a.(error)) (insert_desc e l).
Proof.
  induction 1 as [|x l Hl IH Hx]; cbn [insert_desc].
  - constructor; constructor.
  - destruct (leb_spec (error x) (error e)) as [Le|Gt].
    + constructor; [constructor; assumption|].
      constructor; [exact Le|].
      apply Forall_forall. intros y Hy.
      pose proof (proj1 (Forall_forall _ _) Hx y Hy). cbn beta in *. lra.
    + constructor; [exact IH|].
      apply Forall_forall. intros y Hy.
      apply (Permutation_in _ (Permutation_sym (insert_desc_perm e l))) in Hy.
      destruct Hy as [<-|Hy]; [lra|].
      exact (proj1 (Forall_forall _ _) Hx y Hy).
Qed.

Lemma sort_desc_sorted (l : list ErrorEntry) :
  StronglySorted (fun a b => b.(error) <= a.(error)) (sort_desc l).
Proof.
  unfold sort_desc. induction l as [|x l IH]; cbn [fold_right].
  - constructor.
  - apply insert_desc_sorted, IH.
Qed.

(** *** What [evaluate_model] returns *)

Lemma evaluate_model_value (cases : list Case) (res : Results) :
  evaluate_model log forest_pred cases = Ok res ->
  cases <> [] /\
  res.(res_exact_matches) = exact_matches (loop log forest_pred init 0 cases) /\
  res.(res_close_matches) = close_matches (loop log forest_pred init 0 cases) /\
  res.(res_avg_error) * inject_Z (Z.of_nat (length cases))
  == total_error (loop log forest_pred init 0 cases) /\
  res.(res_max_error) = max_error (loop log forest_pred init 0 cases) /\
  res.(res_score)
  = res.(res_avg_error) * 100
    + inject_Z (Z.of_nat (length cases) - res.(res_exact_matches)) * 0.1 /\
  res.(res_errors)
  = (if (res.(res_exact_matches) <? Z.of_nat (length cases))%Z
     then sort_desc (errors (loop log forest_pred init 0 cases))
     else errors (loop log forest_pred init 0 cases)).
Proof.
  unfold evaluate_model, truediv. cbv zeta.
  destruct (Z.eqb_spec (Z.of_nat (length cases)) 0) as [E|N];
    [discriminate|].
  cbn [bind]. intros H.
  apply (f_equal (fun r => match r with Ok x => x | _ => res end)) in H.
  cbv beta iota in H. subst res.
  cbn [res_exact_matches res_close_matches res_avg_error res_max_error
       res_score res_errors].
  split; [intros ->; apply N; reflexivity|].
  repeat split.
  field. change 0 with (inject_Z 0). rewrite inject_Z_injective. exact N.
Qed.

Lemma res_errors_perm (cases : list Case) (res : Results) :
  evaluate_model log forest_pred cases = Ok res ->
  Permutation (errors (loop log forest_pred init 0 cases)) res.(res_errors).
Proof.
  intros H. destruct (evaluate_model_value cases res H)
    as (_ & _ & _ & _ & _ & _ & ->).
  destruct (_ <? _)%Z; [apply sort_desc_perm | apply Permutation_refl].
Qed.

Lemma sum_errors_bounds (l : list ErrorEntry) (M : Q) :
  Forall (fun e => 0 <= e.(error) /\ e.(error) <= M) l ->
  0 <= sum_errors l /\ sum_errors l <= M * inject_Z (Z.of_nat (length l)).
Proof.
  unfold sum_errors. induction 1 as [|e l [A B] _ [IHa IHb]].
  - cbn [fold_right length Z.of_nat]. change (inject_Z 0) with 0. split; lra.
  - cbn [fold_right length]. rewrite Nat2Z.inj_succ. unfold Z.succ.
    rewrite inject_Z_plus. change (inject_Z 1) with 1. split; lra.
Qed.

End Evaluate.

(** The two counters count the entries below their thresholds. *)
Lemma loop_counts
    (log : Z -> Q) (forest_pred : Z -> Q -> Q -> Q)
    (cases : list Case) (st : Counters) (i : Z) :
  st.(exact_matches)
  = Z.of_nat (length (filter (fun e => e.(error) <? 0.01) st.(errors))) /\
  st.(close_matches)
  = Z.of_nat (length (filter (fun e => e.(error) <? 1.0) st.(errors))) ->
  exact_matches (loop log forest_pred st i cases)
  = Z.of_nat (length (filter (fun e => e.(error) <? 0.01)
                             (errors (loop log forest_pred st i cases)))) /\
  close_matches (loop log forest_pred st i cases)
  = Z.of_nat (length (filter (fun e => e.(error) <? 1.0)
                             (errors (loop log forest_pred st i cases)))).
Proof.
  revert st i. induction cases as [|c cases IH]; intros st i Hst; cbn [loop].
  - exact Hst.
  - apply IH. destruct (zero_days c) eqn:Z0.
    + rewrite (body_zero log forest_pred st i c Z0). exact Hst.
    + destruct (body_nonzero log forest_pred st i c Z0)
        as (e & _ & _ & _ & _ & _ & _ & _ & _ & _ & ->).
      cbn [exact_matches close_matches errors].
      rewrite !filter_app, !length_app. cbn [filter].
      destruct Hst as [-> ->].
      destruct (error e <? 0.01), (error e <? 1.0); cbn [length]; lia.
Qed.

Lemma filter_length_perm (f : ErrorEntry -> bool) (l l' : list ErrorEntry) :
  Permutation l l' -> length (filter f l) = length (filter f l').
Proof.
  induction 1 as [|x l l' _ IH|x y l|l l' l'' _ IH1 _ IH2]; cbn [filter].
  - reflexivity.
  - destruct (f x); cbn [length]; lia.
  - destruct (f x), (f y); reflexivity.
  - lia.
Qed.

Lemma sum_errors_perm (l l' : list ErrorEntry) :
  Permutation l l' -> sum_errors l == sum_errors l'.
Proof.
  unfold sum_errors.
  induction 1 as [|x l l' _ IH|x y l|l l' l'' _ IH1 _ IH2]; cbn [fold_right].
  - reflexivity.
  - apply Qplus_comp; [reflexivity | exact IH].
  - ring.
  - exact (Qeq_trans _ _ _ IH1 IH2).
Qed.

(** On the sample file, with a forest that always predicts 400: the
    five-day trip is matched exactly, the case with zero days is skipped,
    the one-day trip is off by 46.80 and comes first after the sort. *)
Example sample_run :
  exists res : Results,
    evaluate_model (fun _ => 0) (fun _ _ _ => 400) sample_cases = Ok res /\
    res.(res_exact_matches) = 1%Z /\
    res.(res_close_matches) = 1%Z /\
    map case_num res.(res_errors) = [2%Z; 0%Z] /\
    res.(res_max_error) == 46.80 /\
    res.(res_avg_error) == 15.60 /\
    res.(res_score) == 1560.2.
Proof.
  eexists. split; [vm_compute; reflexivity|].
  cbn [res_exact_matches res_close_matches res_errors res_max_error
       res_avg_error res_score map case_num].
  repeat split.
Qed.

(** [evaluate_model] raises [ZeroDivisionError] exactly on an empty case
    file: cases that fail are skipped inside the loop, and the division
    by the number of cases is the only one outside it. *)
Theorem evaluate_model_raises_iff_empty
    (log : Z -> Q) (forest_pred : Z -> Q -> Q -> Q) (cases : list Case) :
  evaluate_model log forest_pred cases = ZeroDivisionError <-> cases = [].
Proof.
  unfold evaluate_model, truediv. cbv zeta. split.
  - destruct (Z.eqb_spec (Z.of_nat (length cases)) 0) as [E|N].
    + intros _. destruct cases; [reflexivity | discriminate E].
    + cbn [bind]. discriminate.
  - intros ->. reflexivity.
Qed.

Lemma evaluate_model_raises_iff_empty_witness :
  evaluate_model (fun _ => 0) (fun _ _ _ => 400) [] = ZeroDivisionError.
Proof.
  apply (proj2 (evaluate_model_raises_iff_empty
                  (fun _ => 0) (fun _ _ _ => 400) [])).
  reflexivity.
Defined.



Lemma evaluate_model_error_stats_aux
    (log : Z -> Q) (forest_pred : Z -> Q -> Q -> Q)
    (cases : list Case) (res : Results) :
  evaluate_model log forest_pred cases = Ok res ->
  Forall (fun e => 0 <= e.(error) /\ e.(error) <= res.(res_max_error))
         res.(res_errors) /\
  (res.(res_errors) <> [] ->
   Exists (fun e => e.(error) == res.(res_max_error)) res.(res_errors)).
Proof.
  intros H.
  pose proof (res_errors_perm log forest_pred cases res H) as P.
  destruct (evaluate_model_value log forest_pred cases res H)
    as (_ & _ & _ & _ & -> & _ & _).
  destruct (loop_invariant log forest_pred cases init 0
              (init_invariant)) as (_ & _ & _ & _ & I5 & _ & I7 & _).
  split.
  - apply (Permutation_Forall P). exact I5.
  - intros Hne.
    assert (Hst : errors (loop log forest_pred init 0 cases) <> []).
    { intros E. rewrite E in P. apply Permutation_nil in P. contradiction. }
    destruct (proj1 (Exists_exists _ _) (I7 Hst)) as (e & Hin & He).
    apply Exists_exists. exists e. split; [|exact He].
    exact (Permutation_in _ P Hin).
Qed.



(** The two counters returned by [evaluate_model] are the numbers of
    returned entries whose error is below 0.01 and below 1.0. *)
Theorem evaluate_model_counts
    (log : Z -> Q) (forest_pred : Z -> Q -> Q -> Q)
    (cases : list Case) (res : Results) :
  evaluate_model log forest_pred cases = Ok res ->
  res.(res_exact_matches)
  = Z.of_nat (length (filter (fun e => e.(error) <? 0.01) res.(res_errors))) /\
  res.(res_close_matches)
  = Z.of_nat (length (filter (fun e => e.(error) <? 1.0) res.(res_errors))).
Proof.
  intros H.
  pose proof (res_errors_perm log forest_pred cases res H) as P.
  destruct (evaluate_model_value log forest_pred cases res H)
    as (_ & -> & -> & _ & _ & _ & _).
  rewrite <- (filter_length_perm _ _ _ P), <- (filter_length_perm _ _ _ P).
  apply loop_counts. split; reflexivity.
Qed.

Lemma evaluate_model_counts_witness :
  exists res : Results,
    evaluate_model (fun _ => 0) (fun _ _ _ => 400) sample_cases = Ok res /\
    res.(res_exact_matches)
    = Z.of_nat (length (filter (fun e => e.(error) <? 0.01)
                               res.(res_errors))) /\
    res.(res_close_matches)
    = Z.of_nat (length (filter (fun e => e.(error) <? 1.0) res.(res_errors))).
Proof.
  eexists. split; [vm_compute; reflexivity|].
  apply (evaluate_model_counts (fun _ => 0) (fun _ _ _ => 400) sample_cases).
  vm_compute. reflexivity.
Defined.

(** Unless every case is an exact match, the entries returned by
    [evaluate_model] come in non-increasing order of error, so that the
    first one carries the maximum error. *)
Theorem evaluate_model_errors_sorted
    (log : Z -> Q) (forest_pred : Z -> Q -> Q -> Q)
    (cases : list Case) (res : Results) :
  evaluate_model log forest_pred cases = Ok res ->
  (res.(res_exact_matches) < Z.of_nat (length cases))%Z ->
  StronglySorted (fun a b => b.(error) <= a.(error)) res.(res_errors) /\
  (forall (e : ErrorEntry) (rest : list ErrorEntry),
      res.(res_errors) = e :: rest -> e.(error) == res.(res_max_error)).
Proof.
  intros H Hlt.
  destruct (evaluate_model_error_stats_aux log forest_pred cases res H)
    as (Range & Attained).
  destruct (evaluate_model_value log forest_pred cases res H)
    as (_ & _ & _ & _ & _ & _ & Err).
  apply Z.ltb_lt in Hlt. rewrite Hlt in Err.
  assert (S : StronglySorted (fun a b => b.(error) <= a.(error))
                             res.(res_errors))
    by (rewrite Err; apply sort_desc_sorted).
  split; [exact S|].
  intros e rest E. rewrite E in S, Range, Attained.
  apply StronglySorted_inv in S. destruct S as [_ Tail].
  destruct (proj1 (Exists_exists _ _) (Attained ltac:(discriminate)))
    as (x & Hin & Hx).
  pose proof (Forall_inv Range) as [_ Top]. cbn beta in Top.
  destruct Hin as [<-|Hin]; [exact Hx|].
  pose proof (proj1 (Forall_forall _ _) Tail x Hin) as Le. cbn beta in Le.
  lra.
Qed.

Lemma evaluate_model_errors_sorted_witness :
  exists res : Results,
    evaluate_model (fun _ => 0) (fun _ _ _ => 400) sample_cases = Ok res /\
    StronglySorted (fun a b => b.(error) <= a.(error)) res.(res_errors).
Proof.
  eexists. split; [vm_compute; reflexivity|].
  apply (evaluate_model_errors_sorted
           (fun _ => 0) (fun _ _ _ => 400) sample_cases);
    vm_compute; reflexivity.
Defined.



Lemma evaluate_model_avg_aux
    (log : Z -> Q) (forest_pred : Z -> Q -> Q -> Q)
    (cases : list Case) (res : Results) :
  evaluate_model log forest_pred cases = Ok res ->
  1 <= inject_Z (Z.of_nat (length cases)) /\
  res.(res_avg_error) * inject_Z (Z.of_nat (length cases))
  == sum_errors res.(res_errors) /\
  0 <= sum_errors res.(res_errors).
Proof.
  intros H.
  pose proof (res_errors_perm log forest_pred cases res H) as P.
  destruct (evaluate_model_error_stats_aux log forest_pred cases res H)
    as (Range & _).
  destruct (evaluate_model_value log forest_pred cases res H)
    as (Ne & _ & _ & Avg & _ & _ & _).
  destruct (loop_invariant log forest_pred cases init 0
              (init_invariant)) as (_ & _ & _ & _ & _ & _ & _ & I8).
  split.
  { change 1 with (inject_Z 1). rewrite <- Zle_Qle.
    destruct cases; [contradiction Ne; reflexivity | cbn [length]; lia]. }
  split.
  - rewrite Avg, I8. apply sum_errors_perm. exact P.
  - destruct (sum_errors_bounds _ _ Range) as [S0 _]. exact S0.
Qed.

Lemma sum_errors_zero (l : list ErrorEntry) :
  Forall (fun e => 0 <= e.(error)) l ->
  (sum_errors l == 0 <-> Forall (fun e => e.(error) == 0) l).
Proof.
  unfold sum_errors. induction 1 as [|e l He Hl IH]; cbn [fold_right].
  - split; [constructor | reflexivity].
  - assert (S0 : 0 <= fold_right (fun e acc => error e + acc) 0 l).
    { clear IH. induction Hl as [|x l Hx _ IHl]; cbn [fold_right]; lra. }
    split.
    + intros E. constructor; [lra|]. apply IH. lra.
    + intros F. pose proof (Forall_inv F) as E0. cbn beta in E0.
      apply Forall_inv_tail, IH in F. lra.
Qed.

(** The score returned by [evaluate_model] charges at least 0.1 for every
    case that raised, although such a case adds nothing to the average
    error; and the score is zero exactly when every case has an entry and
    every entry has error zero. *)
Theorem evaluate_model_score
    (log : Z -> Q) (forest_pred : Z -> Q -> Q -> Q)
    (cases : list Case) (res : Results) :
  evaluate_model log forest_pred cases = Ok res ->
  0.1 * inject_Z (Z.of_nat (length cases)
                  - Z.of_nat (length res.(res_errors)))
  <= res.(res_score) /\
  (res.(res_score) == 0 <->
   length res.(res_errors) = length cases /\
   Forall (fun e => e.(error) == 0) res.(res_errors)).
Proof.
  intros H.
  destruct (evaluate_model_avg_aux log forest_pred cases res H)
    as (N & Avg & S0).
  destruct (evaluate_model_error_stats_aux log forest_pred cases res H)
    as (Range & _).
  assert (Pos : Forall (fun e => 0 <= e.(error)) res.(res_errors)).
  { apply Forall_forall. intros e He.
    exact (proj1 (proj1 (Forall_forall _ _) Range e He)). }
  pose proof (sum_errors_zero _ Pos) as Zero.
  pose proof (Permutation_length (res_errors_perm log forest_pred cases res H))
    as L.
  pose proof (loop_length log forest_pred cases init 0) as Len.
  cbn [init errors length] in Len.
  pose proof (filter_length_le (fun c => negb (zero_days c)) cases) as Fl.
  assert (LenLe : (length res.(res_errors) <= length cases)%nat) by lia.
  assert (Cnt : res.(res_exact_matches)
                = Z.of_nat (length (filter (fun e => e.(error) <? 0.01)
                                           res.(res_errors)))).
  { destruct (evaluate_model_value log forest_pred cases res H)
      as (_ & -> & _ & _ & _ & _ & _).
    rewrite <- (filter_length_perm _ _ _
                  (res_errors_perm log forest_pred cases res H)).
    apply loop_counts. split; reflexivity. }
  pose proof (filter_length_le (fun e => e.(error) <? 0.01) res.(res_errors))
    as ExLe.
  destruct (evaluate_model_value log forest_pred cases res H)
    as (_ & _ & _ & _ & _ & -> & _).
  clear L Len Fl.
  assert (AvgPos : 0 <= res.(res_avg_error)).
  { revert N Avg. generalize (inject_Z (Z.of_nat (length cases))).
    intros n N Avg. nra. }
  assert (Gap : inject_Z (Z.of_nat (length cases)
                          - Z.of_nat (length res.(res_errors)))
                <= inject_Z (Z.of_nat (length cases) - res.(res_exact_matches))).
  { rewrite <- Zle_Qle. lia. }
  assert (GapPos : 0 <= inject_Z (Z.of_nat (length cases)
                                  - res.(res_exact_matches))).
  { change 0 with (inject_Z 0). rewrite <- Zle_Qle. lia. }
  split; [lra|]. split.
  - intros Sc.
    assert (A0 : res.(res_avg_error) == 0) by lra.
    assert (G0 : inject_Z (Z.of_nat (length cases) - res.(res_exact_matches))
                 == 0) by lra.
    change 0 with (inject_Z 0) in G0. rewrite inject_Z_injective in G0.
    split; [lia|]. apply Zero. rewrite <- Avg, A0. ring.
  - intros [Hall Hz].
    assert (S : sum_errors res.(res_errors) == 0) by (apply Zero; exact Hz).
    assert (A0 : res.(res_avg_error) == 0).
    { revert N Avg. generalize (inject_Z (Z.of_nat (length cases))).
      intros n N Avg. nra. }
    assert (Full : length (filter (fun e => e.(error) <? 0.01)
                                  res.(res_errors))
                   = length res.(res_errors)).
    { clear - Hz. induction Hz as [|e l He _ IH]; cbn [filter length].
      - reflexivity.
      - destruct (ltb_spec (error e) 0.01) as [_|Hge]; [|lra].
        cbn [length]. lia. }
    assert (G0 : (Z.of_nat (length cases) - res.(res_exact_matches) = 0)%Z)
      by lia.
    rewrite G0, A0. reflexivity.
Qed.

Lemma evaluate_model_score_witness :
  exists res : Results,
    evaluate_model (fun _ => 0) (fun _ _ _ => 400) sample_cases = Ok res /\
    0.1 * inject_Z (Z.of_nat (length sample_cases)
                    - Z.of_nat (length res.(res_errors)))
    <= res.(res_score).
Proof.
  eexists. split; [vm_compute; reflexivity|].
  apply (evaluate_model_score (fun _ => 0) (fun _ _ _ => 400) sample_cases).
  vm_compute. reflexivity.
Defined.

End EvalFacts.

(* ================================================================== *)
(** * [generate_results.py]: the batch run *)
(* ================================================================== *)

Module GenerateFacts.

Import Py PyFacts Cases ScriptFacts.
Import generate_results.





End GenerateFacts.
